(** * SkiaDisplayList: the recording container of the Skia pipeline

    A shallow embedding of [libs/hwui/pipeline/skia/SkiaDisplayList.h].
    The header gives the data members, the destructor and the inline
    queries; the out-of-line members ([reset], [syncContents],
    [prepareListAndChildren], [updateChildren] and the constructor) are
    declared there and defined in a translation unit that is not part of
    the sources, so their bodies follow the specification and say so. *)

From Stdlib Require Import List Bool Arith NArith ZArith Lia Permutation.
Import ListNotations.

(** ** Externally owned entities

    The container never owns the scene nodes, images, vector drawables or
    functors it refers to: it holds raw pointers, kept here as addresses. *)

Definition RenderNode_ptr := N.
Definition SkImage_ptr := N.
Definition VectorDrawableRoot_ptr := N.
Definition Functor_ptr := N.

Section SkiaPipeline.

(** [SkScalar] is Skia's coordinate type (a float, only stored here),
    [SkDrawable] the objects created in the linear allocator, [LiteOp] the
    drawing operations of the command buffer that refer to no drawable, and
    [TreeInfo] the traversal state handed to [prepareListAndChildren]. *)
Context {SkScalar SkDrawable LiteOp TreeInfo : Type}.

Record SkRect : Type := MakeLTRB
  { fLeft : SkScalar; fTop : SkScalar; fRight : SkScalar; fBottom : SkScalar }.

Record SkMatrix : Type := { fMat : list SkScalar }.

(** ** Drawable wrappers (RenderNodeDrawable.h, GLFunctorDrawable.h) *)

(** Modelled from the spec: RenderNodeDrawable.h is not part of the sources.
    A Child-Node Reference pairs the pointer to the scene node with the
    transform captured at record time (spec, section 3). *)
Record RenderNodeDrawable : Type :=
  { getRenderNode : RenderNode_ptr; getRecordedMatrix : SkMatrix }.

(** Modelled from the spec: GLFunctorDrawable.h is not part of the sources.
    A Functor Reference wraps the external platform-drawing callback and the
    bounds it was recorded with (spec, section 3). *)
Record GLFunctorDrawable : Type :=
  { getFunctor : Functor_ptr; getFunctorBounds : SkRect }.

(** ** The command buffer, [SkLiteDL] *)

(** What a recorded operation may point at: an element of one of the two
    deques, or an object created by [allocateDrawable]. *)
Inductive DrawableRef : Type :=
| InChildNodes (i : nat)
| InChildFunctors (i : nat)
| InArena (i : nat).

Inductive DrawOp : Type :=
| drawDrawable (d : DrawableRef)
| drawLite (op : LiteOp).

(** Modelled from the spec: SkLiteDL belongs to Skia.  The spec (section 6)
    uses it through [append], [isEmpty] and a bounding rectangle; [fOps] is
    the sequence of recorded operations, oldest first. *)
Record SkLiteDL : Type := { fOps : list DrawOp; fBounds : SkRect }.

(** Modelled from the spec: a new command buffer holds no operation. *)
Definition SkLiteDL_New (bounds : SkRect) : SkLiteDL :=
  {| fOps := []; fBounds := bounds |}.

(** Modelled from the spec: resetting forgets the operations and takes the
    new bounds. *)
Definition SkLiteDL_reset (bounds : SkRect) (dl : SkLiteDL) : SkLiteDL :=
  {| fOps := []; fBounds := bounds |}.

(** Modelled from the spec: [append(operation)]. *)
Definition SkLiteDL_append (op : DrawOp) (dl : SkLiteDL) : SkLiteDL :=
  {| fOps := fOps dl ++ [op]; fBounds := fBounds dl |}.

(** Modelled from the spec: [isEmpty()], true iff no operation is held. *)
Definition SkLiteDL_empty (dl : SkLiteDL) : bool :=
  match fOps dl with [] => true | _ :: _ => false end.

(** ** The arena, [LinearAllocator] *)

(** Modelled from the spec: the allocator is the [allocator] member that
    [allocateDrawable] uses; it is inherited from DisplayList, whose header
    is not part of the sources.  The spec (section 6) gives it [allocate],
    [rewind] and [release]; objects are only ever freed all together. *)
Record LinearAllocator : Type := { arenaObjects : list SkDrawable }.

(** Modelled from the spec: a fresh arena holds no object. *)
Definition LinearAllocator_new : LinearAllocator := {| arenaObjects := [] |}.

(** Modelled from the spec: [allocate] places the object after those
    already there and answers its place. *)
Definition LinearAllocator_create (d : SkDrawable) (a : LinearAllocator)
  : nat * LinearAllocator :=
  (length (arenaObjects a), {| arenaObjects := arenaObjects a ++ [d] |}).

(** Modelled from the spec: [rewind] and [release] give every object back
    at once. *)
Definition LinearAllocator_rewind (a : LinearAllocator) : LinearAllocator :=
  {| arenaObjects := [] |}.

(** ** The container *)

(** The data members, in declaration order; [allocator] comes first because
    it lives in the base class.  [mDrawable] is an [sk_sp]: [None] is the
    null pointer. *)
Record SkiaDisplayList : Type :=
  { allocator : LinearAllocator;
    mChildNodes : list RenderNodeDrawable;
    mChildFunctors : list GLFunctorDrawable;
    mMutableImages : list SkImage_ptr;
    mVectorDrawables : list VectorDrawableRoot_ptr;
    mDrawable : option SkLiteDL;
    mIsProjectionReceiver : bool }.

Definition empty {A : Type} (l : list A) : bool :=
  match l with [] => true | _ :: _ => false end.

(** A [const] member function reads the object and leaves it as it is. *)
Definition const_method {A : Type} (f : SkiaDisplayList -> A)
    (self : SkiaDisplayList) : A * SkiaDisplayList :=
  (f self, self).

(** [bool isSkiaDL() const override { return true; }] *)
Definition isSkiaDL (self : SkiaDisplayList) : bool := true.

(** [bool isEmpty() const override { return mDrawable->empty(); }]
    Dereferencing a null [mDrawable] has no result. *)
Definition isEmpty (self : SkiaDisplayList) : option bool :=
  match mDrawable self with
  | Some dl => Some (SkLiteDL_empty dl)
  | None => None
  end.

(** [bool hasFunctor() const override { return !mChildFunctors.empty(); }] *)
Definition hasFunctor (self : SkiaDisplayList) : bool :=
  negb (empty (mChildFunctors self)).

(** [bool hasVectorDrawables() const override
      { return !mVectorDrawables.empty(); }] *)
Definition hasVectorDrawables (self : SkiaDisplayList) : bool :=
  negb (empty (mVectorDrawables self)).

(** The bounding rectangle is the one of the command buffer. *)
Definition getBounds (self : SkiaDisplayList) : option SkRect :=
  match mDrawable self with
  | Some dl => Some (fBounds dl)
  | None => None
  end.

(** [allocateDrawable<T>(params...)]:
    [return allocator.create<T>(std::forward<Params>(params)...);]
    The argument is the object [T(params...)]; the result is its place in
    the arena. *)
Definition allocateDrawable (d : SkDrawable) (self : SkiaDisplayList)
  : nat * SkiaDisplayList :=
  let '(h, a) := LinearAllocator_create d (allocator self) in
  (h, {| allocator := a;
         mChildNodes := mChildNodes self;
         mChildFunctors := mChildFunctors self;
         mMutableImages := mMutableImages self;
         mVectorDrawables := mVectorDrawables self;
         mDrawable := mDrawable self;
         mIsProjectionReceiver := mIsProjectionReceiver self |}).

(** Modelled from the spec: the constructor [SkiaDisplayList(SkRect bounds)]
    is only declared in the header.  It "allocates fresh internal storage
    (Arena, Command Buffer, empty collections); bounding rectangle = given
    rectangle" (spec, section 4.1); [mIsProjectionReceiver] takes its
    default member initializer, [false]. *)
Definition new_SkiaDisplayList (bounds : SkRect) : SkiaDisplayList :=
  {| allocator := LinearAllocator_new;
     mChildNodes := [];
     mChildFunctors := [];
     mMutableImages := [];
     mVectorDrawables := [];
     mDrawable := Some (SkLiteDL_New bounds);
     mIsProjectionReceiver := false |}.

(** ** Teardown: the destructor and [reset]

    Both are sequences of member-level steps.  A step that gives back the
    storage of wrapper drawables (one of the two deques, or the arena) is a
    reclaiming step. *)

Inductive Teardown : Type :=
| Drop_command_buffer
| Reset_command_buffer (bounds : SkRect)
| Clear_mutable_images
| Clear_vector_drawables
| Clear_child_functors
| Clear_child_nodes
| Reclaim_arena
| Clear_projection_receiver.

Definition teardown_step (t : Teardown) (self : SkiaDisplayList)
  : SkiaDisplayList :=
  {| allocator :=
       match t with
       | Reclaim_arena => LinearAllocator_rewind (allocator self)
       | _ => allocator self
       end;
     mChildNodes :=
       match t with Clear_child_nodes => [] | _ => mChildNodes self end;
     mChildFunctors :=
       match t with Clear_child_functors => [] | _ => mChildFunctors self end;
     mMutableImages :=
       match t with Clear_mutable_images => [] | _ => mMutableImages self end;
     mVectorDrawables :=
       match t with
       | Clear_vector_drawables => []
       | _ => mVectorDrawables self
       end;
     mDrawable :=
       match t with
       | Drop_command_buffer => None
       | Reset_command_buffer bounds =>
           option_map (SkLiteDL_reset bounds) (mDrawable self)
       | _ => mDrawable self
       end;
     mIsProjectionReceiver :=
       match t with
       | Clear_projection_receiver => false
       | _ => mIsProjectionReceiver self
       end |}.

Definition teardown_run (steps : list Teardown) (self : SkiaDisplayList)
  : SkiaDisplayList :=
  fold_left (fun s t => teardown_step t s) steps self.

Definition reclaims (t : Teardown) : bool :=
  match t with
  | Clear_child_functors | Clear_child_nodes | Reclaim_arena => true
  | _ => false
  end.

Definition reclaims_arena (t : Teardown) : bool :=
  match t with Reclaim_arena => true | _ => false end.

Definition tears_down_command_buffer (t : Teardown) : bool :=
  match t with
  | Drop_command_buffer | Reset_command_buffer _ => true
  | _ => false
  end.

(** [virtual ~SkiaDisplayList() { mDrawable.reset(); }]
    The body runs first; then the members are destroyed in the reverse of
    their declaration order ([mIsProjectionReceiver] is trivial, [mDrawable]
    is null by then), and the base class, which holds [allocator], last. *)
Definition dtor_body : list Teardown := [Drop_command_buffer].

Definition dtor_members : list Teardown :=
  [Drop_command_buffer; Clear_vector_drawables; Clear_mutable_images;
   Clear_child_functors; Clear_child_nodes].

Definition dtor_base : list Teardown := [Reclaim_arena].

Definition dtor_SkiaDisplayList : list Teardown :=
  dtor_body ++ dtor_members ++ dtor_base.

(** Modelled from the spec: [reset] is only declared in the header.  It
    leaves the object as if newly constructed with the given bounds; "before
    clearing wrapper-holding collections, any object that holds a reference
    to those wrappers (notably the Command Buffer) must be torn down/reset
    first"; then "all child collections cleared, Arena rewound" (spec,
    sections 3 and 4.1). *)
Definition reset_steps (bounds : SkRect) : list Teardown :=
  [Clear_projection_receiver; Reset_command_buffer bounds;
   Clear_mutable_images; Clear_vector_drawables;
   Clear_child_functors; Clear_child_nodes; Reclaim_arena].

(** Modelled from the spec: [reset(bounds)], only declared in the header,
    runs the steps above on the object (spec, section 4.1). *)
Definition reset (bounds : SkRect) (self : SkiaDisplayList)
  : SkiaDisplayList :=
  teardown_run (reset_steps bounds) self.

(** The drawables the command buffer points at. *)
Definition op_refs (op : DrawOp) : list DrawableRef :=
  match op with drawDrawable d => [d] | drawLite _ => [] end.

Definition command_buffer_refs (self : SkiaDisplayList) : list DrawableRef :=
  match mDrawable self with
  | Some dl => flat_map op_refs (fOps dl)
  | None => []
  end.

(** A reference is live when the element it points at is still stored. *)
Definition live_ref (self : SkiaDisplayList) (r : DrawableRef) : bool :=
  match r with
  | InChildNodes i => i <? length (mChildNodes self)
  | InChildFunctors i => i <? length (mChildFunctors self)
  | InArena i => i <? length (arenaObjects (allocator self))
  end.

Definition no_dangling (self : SkiaDisplayList) : bool :=
  forallb (live_ref self) (command_buffer_refs self).

(** Wrapper storage is given back whole: each store of wrappers is either
    what it was or empty. *)
Definition kept_or_gone {A : Type} (before now : list A) : Prop :=
  now = before \/ now = [].

Definition wrappers_kept_or_gone (before now : SkiaDisplayList) : Prop :=
  kept_or_gone (mChildNodes before) (mChildNodes now) /\
  kept_or_gone (mChildFunctors before) (mChildFunctors now) /\
  kept_or_gone (arenaObjects (allocator before))
               (arenaObjects (allocator now)).

(** ** Recording *)

(** Modelled from the spec: the producer (the recording canvas) is not part
    of the sources.  It appends to the public collections, creates drawables
    in the arena, appends operations to the command buffer and may mark the
    list as a projection receiver (spec, section 2); between passes the
    owner calls [reset]. *)
Inductive Mutation : Type :=
| Emplace_child_node (d : RenderNodeDrawable)
| Emplace_child_functor (d : GLFunctorDrawable)
| Push_mutable_image (img : SkImage_ptr)
| Push_vector_drawable (v : VectorDrawableRoot_ptr)
| Allocate_drawable (d : SkDrawable)
| Append_op (op : DrawOp)
| Set_projection_receiver (b : bool)
| Reset (bounds : SkRect).

(** Modelled from the spec: what one step of the producer, or a [reset],
    does to the members. *)
Definition mutate (m : Mutation) (self : SkiaDisplayList) : SkiaDisplayList :=
  match m with
  | Allocate_drawable d => snd (allocateDrawable d self)
  | Reset bounds => reset bounds self
  | _ =>
    {| allocator := allocator self;
       mChildNodes :=
         match m with
         | Emplace_child_node d => mChildNodes self ++ [d]
         | _ => mChildNodes self
         end;
       mChildFunctors :=
         match m with
         | Emplace_child_functor d => mChildFunctors self ++ [d]
         | _ => mChildFunctors self
         end;
       mMutableImages :=
         match m with
         | Push_mutable_image img => mMutableImages self ++ [img]
         | _ => mMutableImages self
         end;
       mVectorDrawables :=
         match m with
         | Push_vector_drawable v => mVectorDrawables self ++ [v]
         | _ => mVectorDrawables self
         end;
       mDrawable :=
         match m with
         | Append_op op => option_map (SkLiteDL_append op) (mDrawable self)
         | _ => mDrawable self
         end;
       mIsProjectionReceiver :=
         match m with
         | Set_projection_receiver b => b
         | _ => mIsProjectionReceiver self
         end |}
  end.

(** The state after constructing with [bounds] and then going through
    [history], oldest mutation first. *)
Definition after (bounds : SkRect) (history : list Mutation)
  : SkiaDisplayList :=
  fold_left (fun s m => mutate m s) history (new_SkiaDisplayList bounds).

(** Number of operations recorded since construction or the last reset,
    given that [n] were recorded before [history]. *)
Fixpoint recorded_since_reset (n : nat) (history : list Mutation) : nat :=
  match history with
  | [] => n
  | Reset _ :: rest => recorded_since_reset 0 rest
  | Append_op _ :: rest => recorded_since_reset (S n) rest
  | _ :: rest => recorded_since_reset n rest
  end.

(** ** Calls out of the container

    [syncContents], [prepareListAndChildren] and [updateChildren] do their
    work by calling hooks of external entities and the callbacks they are
    given.  A program is a tree of such calls; what a call does and answers
    is up to the environment. *)

Inductive Ext : Type :=
| Sync_functor (f : GLFunctorDrawable)
| Sync_vector (v : VectorDrawableRoot_ptr)
| Upload_image (img : SkImage_ptr) (info : TreeInfo)
| Node_signal (node : RenderNode_ptr) (info : TreeInfo)
| Invoke_updateFn (node : RenderNode_ptr)
| Invoke_childFn (node : RenderNode_ptr) (info : TreeInfo)
    (functorsNeedLayer : bool).

(** What a call gives back: [TreeInfo&] parameters come back updated, a
    signal is a boolean, a [void] hook gives nothing. *)
Definition result (e : Ext) : Type :=
  match e with
  | Upload_image _ _ => (bool * TreeInfo)%type
  | Node_signal _ _ => bool
  | Invoke_childFn _ _ _ => TreeInfo
  | Sync_functor _ | Sync_vector _ | Invoke_updateFn _ => unit
  end.

Inductive Prog (A : Type) : Type :=
| Ret (a : A)
| Do (e : Ext) (k : result e -> Prog A).

Arguments Ret {A} a.
Arguments Do {A} e k.

Fixpoint bind {A B : Type} (p : Prog A) (f : A -> Prog B) : Prog B :=
  match p with
  | Ret a => f a
  | Do e k => Do e (fun r => bind (k r) f)
  end.

Notation "x <- p ;; q" := (bind p (fun x => q))
  (at level 61, p at next level, right associativity).
Notation "' pat <- p ;; q" := (bind p (fun x => match x with pat => q end))
  (at level 61, pat pattern, p at next level, right associativity).

Definition call (e : Ext) : Prog (result e) := Do e Ret.

(** A range-based [for] over a container, with the loop-carried state. *)
Fixpoint for_each {X S : Type} (xs : list X) (body : X -> S -> Prog S)
    (s : S) : Prog S :=
  match xs with
  | [] => Ret s
  | x :: rest => s' <- body x s ;; for_each rest body s'
  end.

(** One call and its answer, as it happened in a run. *)
Record Interaction : Type := { ev : Ext; answer : result ev }.

(** The environment: every call may read and change the world [W]. *)
Definition handler (W : Type) : Type := forall e : Ext, W -> result e * W.

Fixpoint run {W A : Type} (h : handler W) (p : Prog A) (w : W)
  : A * W * list Interaction :=
  match p with
  | Ret a => (a, w, [])
  | Do e k =>
      let '(r, w1) := h e w in
      let '(a, w2, log) := run h (k r) w1 in
      (a, w2, {| ev := e; answer := r |} :: log)
  end.

Definition returned {W A : Type} (x : A * W * list Interaction) : A :=
  fst (fst x).
Definition calls {W A : Type} (x : A * W * list Interaction) : list Ext :=
  map ev (snd x).
Definition interactions {W A : Type} (x : A * W * list Interaction)
  : list Interaction := snd x.

(** The callbacks of the header, as calls the environment answers: a
    [std::function] from a node pointer to [void], and one from a node
    pointer, a [TreeInfo&] and a [bool] to [void]. *)
Definition updateFn_call (node : RenderNode_ptr) : Prog unit :=
  call (Invoke_updateFn node).

Definition childFn_call (node : RenderNode_ptr) (info : TreeInfo)
    (functorsNeedLayer : bool) : Prog TreeInfo :=
  call (Invoke_childFn node info functorsNeedLayer).

(** Modelled from the spec: [syncContents] is only declared in the header.
    "For each Functor Reference and Vector-Content Reference, invoke that
    entity's own state-synchronization hook exactly once, in any order"
    (spec, section 4.1). *)
Definition syncContents (self : SkiaDisplayList) : Prog SkiaDisplayList :=
  _ <- for_each (mChildFunctors self)
         (fun functor _ => call (Sync_functor functor)) tt ;;
  _ <- for_each (mVectorDrawables self)
         (fun vectorDrawable _ => call (Sync_vector vectorDrawable)) tt ;;
  Ret self.

(** Modelled from the spec: [updateChildren] is only declared in the header.
    It "invokes the callback once per distinct referenced child scene node,
    in recording order, with no side effect beyond what the callback
    performs" (spec, section 4.1); the header says "once for each child of
    this DisplayList", the children being the elements of [mChildNodes]. *)
Definition updateChildren (updateFn : RenderNode_ptr -> Prog unit)
    (self : SkiaDisplayList) : Prog SkiaDisplayList :=
  _ <- for_each (mChildNodes self)
         (fun child _ => updateFn (getRenderNode child)) tt ;;
  Ret self.

(** Modelled from the spec: one round of the walk over the Mutable-Image
    References of [prepareListAndChildren], whose body is not part of the
    sources: the image is uploaded or synchronized as needed, and what it
    signals is added to the aggregate (spec, section 4.1).  The spec does
    not say how an image signals; here the signal comes back from the
    upload, together with the updated tree info. *)
Definition image_round (image : SkImage_ptr) (st : bool * TreeInfo)
  : Prog (bool * TreeInfo) :=
  r <- call (Upload_image image (snd st)) ;;
  Ret (fst st || fst r, snd r).

(** Modelled from the spec: one round of the walk over the Child-Node
    References of [prepareListAndChildren]: the supplied callback is invoked
    on the child's node with the tree info and [functorsNeedLayer], and what
    the child signals is added to the aggregate (spec, section 4.1).  The
    callback returns [void] in the header, so the signal is read once the
    callback has run. *)
Definition child_round
    (childFn : RenderNode_ptr -> TreeInfo -> bool -> Prog TreeInfo)
    (functorsNeedLayer : bool) (child : RenderNodeDrawable)
    (st : bool * TreeInfo) : Prog (bool * TreeInfo) :=
  let childNode := getRenderNode child in
  info' <- childFn childNode (snd st) functorsNeedLayer ;;
  dirty <- call (Node_signal childNode info') ;;
  Ret (fst st || dirty, info').

(** Modelled from the spec: [prepareListAndChildren] is only declared in the
    header.  It "walks Mutable-Image References (triggering
    upload/synchronization side effects as needed) and every Child-Node
    Reference (invoking the supplied callback ...), aggregating whether any
    visited content signals that the owning node must be treated as
    invalidated"; it returns that boolean, tolerates zero children and hands
    [functorsNeedLayer] on unchanged (spec, section 4.1). *)
Definition prepareListAndChildren (info : TreeInfo) (functorsNeedLayer : bool)
    (childFn : RenderNode_ptr -> TreeInfo -> bool -> Prog TreeInfo)
    (self : SkiaDisplayList) : Prog (bool * TreeInfo * SkiaDisplayList) :=
  st1 <- for_each (mMutableImages self) image_round (false, info) ;;
  st2 <- for_each (mChildNodes self)
           (child_round childFn functorsNeedLayer) st1 ;;
  Ret (fst st2, snd st2, self).

(** Whether an interaction is a visited reference signalling invalidation. *)
Definition signalled (i : Interaction) : bool :=
  match i with
  | {| ev := Upload_image _ _; answer := a |} => fst a
  | {| ev := Node_signal _ _; answer := a |} => a
  | _ => false
  end.

(** The arguments of the calls of the child-prepare callback in a log. *)
Definition childFn_args (e : Ext) : list (RenderNode_ptr * bool) :=
  match e with
  | Invoke_childFn node _ functorsNeedLayer => [(node, functorsNeedLayer)]
  | _ => []
  end.

(** The references a prepare pass visits, read off the calls it makes: an
    image is visited by its upload, a child node by the reading of its
    signal. *)
Inductive Visited : Type :=
| Visited_image (img : SkImage_ptr)
| Visited_node (node : RenderNode_ptr).

Definition visit_of (e : Ext) : list Visited :=
  match e with
  | Upload_image img _ => [Visited_image img]
  | Node_signal node _ => [Visited_node node]
  | _ => []
  end.

(** ** Following references *)

(** What a reference held by the command buffer points at. *)
Inductive Pointee : Type :=
| Node_wrapper (d : RenderNodeDrawable)
| Functor_wrapper (d : GLFunctorDrawable)
| Arena_object (d : SkDrawable).

(** Dereferencing: the element in that place, if one is stored there. *)
Definition deref (self : SkiaDisplayList) (r : DrawableRef) : option Pointee :=
  match r with
  | InChildNodes i => option_map Node_wrapper (nth_error (mChildNodes self) i)
  | InChildFunctors i =>
      option_map Functor_wrapper (nth_error (mChildFunctors self) i)
  | InArena i =>
      option_map Arena_object (nth_error (arenaObjects (allocator self)) i)
  end.

(** Going through a history from a given state, oldest mutation first. *)
Definition record (history : list Mutation) (self : SkiaDisplayList)
  : SkiaDisplayList :=
  fold_left (fun s m => mutate m s) history self.

Definition is_reset (m : Mutation) : bool :=
  match m with Reset _ => true | _ => false end.

(** A step is admissible when the operation it appends, if any, only points
    at drawables that are stored by then. *)
Definition admissible (m : Mutation) (self : SkiaDisplayList) : bool :=
  match m with
  | Append_op op => forallb (live_ref self) (op_refs op)
  | _ => true
  end.

Fixpoint disciplined (history : list Mutation) (self : SkiaDisplayList)
  : bool :=
  match history with
  | [] => true
  | m :: rest => admissible m self && disciplined rest (mutate m self)
  end.

(** Number of functors, and of vector drawables, put in since construction
    or the last reset, given that [n] were there before [history]. *)
Fixpoint functors_since_reset (n : nat) (history : list Mutation) : nat :=
  match history with
  | [] => n
  | Reset _ :: rest => functors_since_reset 0 rest
  | Emplace_child_functor _ :: rest => functors_since_reset (S n) rest
  | _ :: rest => functors_since_reset n rest
  end.

Fixpoint vector_drawables_since_reset (n : nat) (history : list Mutation)
  : nat :=
  match history with
  | [] => n
  | Reset _ :: rest => vector_drawables_since_reset 0 rest
  | Push_vector_drawable _ :: rest => vector_drawables_since_reset (S n) rest
  | _ :: rest => vector_drawables_since_reset n rest
  end.

(** One list continues another. *)
Definition continues {A : Type} (old new : list A) : Prop :=
  exists more, new = old ++ more.

(** The three stores of wrappers all continue. *)
Definition stores_continue (before now : SkiaDisplayList) : Prop :=
  continues (mChildNodes before) (mChildNodes now) /\
  continues (mChildFunctors before) (mChildFunctors now) /\
  continues (arenaObjects (allocator before)) (arenaObjects (allocator now)).


End SkiaPipeline.

(** * A recording pass on concrete data

    The scenario of the specification (section 8): coordinates are integers,
    arena objects and plain operations are numbered, the tree info and the
    world count what happened to them. *)

Definition bounds100 : @SkRect Z := (MakeLTRB 0 0 100 100)%Z.
Definition bounds50 : @SkRect Z := (MakeLTRB 0 0 50 50)%Z.

Definition identity : @SkMatrix Z :=
  {| fMat := [1; 0; 0; 0; 1; 0; 0; 0; 1]%Z |}.

Definition child7 : @RenderNodeDrawable Z :=
  {| getRenderNode := 7%N; getRecordedMatrix := identity |}.
Definition child9 : @RenderNodeDrawable Z :=
  {| getRenderNode := 9%N; getRecordedMatrix := identity |}.
Definition functor3 : @GLFunctorDrawable Z :=
  {| getFunctor := 3%N; getFunctorBounds := bounds50 |}.

(** One child-node operation and one functor operation. *)
Definition recording : list (@Mutation Z N N) :=
  [Emplace_child_node child7; Append_op (drawDrawable (InChildNodes 0));
   Emplace_child_functor functor3;
   Append_op (drawDrawable (InChildFunctors 0))].

Definition recorded : @SkiaDisplayList Z N N := after bounds100 recording.

(** A second pass: the same node twice, another node, an image, a vector
    drawable, an arena object and the projection flag. *)
Definition second_pass : list (@Mutation Z N N) :=
  [Reset bounds50;
   Emplace_child_node child7; Append_op (drawDrawable (InChildNodes 0));
   Emplace_child_node child9; Append_op (drawDrawable (InChildNodes 1));
   Emplace_child_node child7; Append_op (drawDrawable (InChildNodes 2));
   Push_mutable_image 4%N; Push_vector_drawable 5%N;
   Allocate_drawable 11%N; Append_op (drawDrawable (InArena 0));
   Set_projection_receiver true].

Definition recorded_twice : @SkiaDisplayList Z N N :=
  after bounds100 (recording ++ second_pass).

(** More of the same pass: nothing is reset. *)
Definition more_recording : list (@Mutation Z N N) :=
  [Emplace_child_node child9; Allocate_drawable 12%N;
   Append_op (drawDrawable (InArena 1)); Emplace_child_functor functor3;
   Append_op (drawDrawable (InChildFunctors 0))].

(** An environment: the world counts the calls, an upload bumps the tree
    info and signals for odd images, a child callback adds ten to the tree
    info, and node 7 signals. *)
Definition counting : @handler Z nat nat :=
  fun e w =>
    match e as e0 return (@result Z nat e0 * nat) with
    | Sync_functor _ => (tt, S w)
    | Sync_vector _ => (tt, S w)
    | Upload_image img info => ((N.odd img, S info), S w)
    | Node_signal node _ => (N.eqb node 7, S w)
    | Invoke_updateFn _ => (tt, S w)
    | Invoke_childFn _ info _ => (info + 10, S w)
    end.

(** The destructor, cut before the first step that gives a deque back. *)
Definition dtor_before_deques : list (@Teardown Z) :=
  [Drop_command_buffer; Drop_command_buffer;
   Clear_vector_drawables; Clear_mutable_images].

Definition dtor_from_deques : list (@Teardown Z) :=
  [Clear_child_functors; Clear_child_nodes; Reclaim_arena].

(** * Proof steps used more than once *)

(** A round made of a few calls: run it and read the log. *)
Ltac one_call h :=
  cbv beta;
  unfold updateFn_call, childFn_call, call, calls, returned, interactions;
  simpl;
  repeat (match goal with |- context [h ?e ?w] => destruct (h e w) end; simpl);
  try rewrite orb_false_r;
  reflexivity.

(** All the ways of cutting a given sequence of steps in two. *)
Ltac split_prefix H :=
  lazymatch type of H with
  | [] = ?pre ++ ?post =>
      destruct pre; simpl in H; [subst post | discriminate H]
  | (_ :: _) = ?pre ++ ?post =>
      destruct pre as [| ? pre]; simpl in H;
      [subst post | injection H as ? H; subst; split_prefix H]
  end.

Ltac command_buffer_gone self :=
  unfold no_dangling, command_buffer_refs; simpl;
  try (destruct (mDrawable self)); reflexivity.

(** * Properties *)

Section Properties.

Context {SkScalar SkDrawable LiteOp TreeInfo : Type}.

Local Abbreviation SkRect := (@SkRect SkScalar).
Local Abbreviation SkLiteDL := (@SkLiteDL SkScalar LiteOp).
Local Abbreviation RenderNodeDrawable := (@RenderNodeDrawable SkScalar).
Local Abbreviation GLFunctorDrawable := (@GLFunctorDrawable SkScalar).
Local Abbreviation SkiaDisplayList :=
  (@SkiaDisplayList SkScalar SkDrawable LiteOp).
Local Abbreviation Teardown := (@Teardown SkScalar).
Local Abbreviation Mutation := (@Mutation SkScalar SkDrawable LiteOp).
Local Abbreviation Ext := (@Ext SkScalar TreeInfo).
Local Abbreviation Prog := (@Prog SkScalar TreeInfo).
Local Abbreviation Interaction := (@Interaction SkScalar TreeInfo).
Local Abbreviation handler := (@handler SkScalar TreeInfo).
Local Abbreviation new_SkiaDisplayList :=
  (@new_SkiaDisplayList SkScalar SkDrawable LiteOp).
Local Abbreviation after := (@after SkScalar SkDrawable LiteOp).

(** ** Running programs *)

Lemma run_bind {W A B : Type} (h : handler W) (p : Prog A) (f : A -> Prog B)
    (w : W) :
  run h (bind p f) w =
  let '(a, w1, l1) := run h p w in
  let '(b, w2, l2) := run h (f a) w1 in
  (b, w2, l1 ++ l2).
Proof.
  revert w. induction p as [a | e k IH]; intros w; simpl.
  - destruct (run h (f a) w) as [[b w2] l2]. reflexivity.
  - destruct (h e w) as [r w1]. rewrite IH.
    destruct (run h (k r) w1) as [[a w2] l1].
    destruct (run h (f a) w2) as [[b w3] l2]. reflexivity.
Qed.

Section Loops.
Context {W X S Y : Type} (h : handler W) (body : X -> S -> Prog S).

(** What a loop calls is what its rounds call, one after the other. *)
Lemma for_each_calls (g : Ext -> list Y) (P : X -> list Y) :
  (forall x s w, flat_map g (calls (run h (body x s) w)) = P x) ->
  forall xs s w,
    flat_map g (calls (run h (for_each xs body s) w)) = flat_map P xs.
Proof.
  intros Hbody xs. induction xs as [| x rest IH]; intros s w; simpl.
  - reflexivity.
  - rewrite run_bind. specialize (Hbody x s w).
    destruct (run h (body x s) w) as [[s1 w1] l1].
    specialize (IH s1 w1).
    destruct (run h (for_each rest body s1) w1) as [[s2 w2] l2].
    unfold calls in *. simpl in *.
    rewrite map_app, flat_map_app, Hbody, IH. reflexivity.
Qed.
End Loops.

Section Aggregation.
Context {W X I : Type} (h : handler W)
  (body : X -> bool * I -> Prog (bool * I)).

(** A loop whose rounds each add the signals they saw to the flag ends
    with the flag it started from, or-ed with all the signals seen. *)
Lemma for_each_signals :
  (forall x s w,
      fst (returned (run h (body x s) w)) =
      fst s || existsb signalled (interactions (run h (body x s) w))) ->
  forall xs s w,
    fst (returned (run h (for_each xs body s) w)) =
    fst s || existsb signalled (interactions (run h (for_each xs body s) w)).
Proof.
  intros Hbody xs. induction xs as [| x rest IH]; intros s w; simpl.
  - unfold returned, interactions. simpl. now rewrite orb_false_r.
  - rewrite run_bind. specialize (Hbody x s w).
    destruct (run h (body x s) w) as [[s1 w1] l1].
    specialize (IH s1 w1).
    destruct (run h (for_each rest body s1) w1) as [[s2 w2] l2].
    unfold returned, interactions in *. simpl in *.
    rewrite IH, Hbody, existsb_app, orb_assoc. reflexivity.
Qed.
End Aggregation.

Lemma flat_map_singleton {A : Type} (l : list A) :
  flat_map (fun x => [x]) l = l.
Proof. induction l as [| x l IH]; simpl; congruence. Qed.

Lemma flat_map_map_singleton {A B : Type} (f : A -> B) (l : list A) :
  flat_map (fun x => [f x]) l = map f l.
Proof. induction l as [| x l IH]; simpl; congruence. Qed.

(** ** The traversals *)


Lemma syncContents_run {W : Type} (h : handler W) (w : W)
    (self : SkiaDisplayList) :
  calls (run h (syncContents self) w) =
    map Sync_functor (mChildFunctors self) ++
    map Sync_vector (mVectorDrawables self) /\
  returned (run h (syncContents self) w) = self.
Proof.
  unfold syncContents. rewrite run_bind.
  pose proof (for_each_calls h (fun functor (_ : unit) =>
                call (Sync_functor functor))
                (fun e => [e]) (fun f => [Sync_functor f])) as H1.
  pose proof (for_each_calls h (fun vectorDrawable (_ : unit) =>
                call (Sync_vector vectorDrawable))
                (fun e => [e]) (fun v => [Sync_vector v])) as H2.
  specialize (H1 (fun x s w0 => ltac:(one_call h))
                 (mChildFunctors self) tt w).
  destruct (run h (for_each (mChildFunctors self) _ tt) w) as [[u1 w1] l1].
  rewrite run_bind.
  specialize (H2 (fun x s w0 => ltac:(one_call h))
                 (mVectorDrawables self) tt w1).
  destruct (run h (for_each (mVectorDrawables self) _ tt) w1) as [[u2 w2] l2].
  unfold calls, returned in *. simpl in *.
  rewrite flat_map_singleton, flat_map_map_singleton in H1.
  rewrite flat_map_singleton, flat_map_map_singleton in H2.
  rewrite app_nil_r, map_app, H1, H2. split; reflexivity.
Qed.

(** C3. Every run of [syncContents], whatever the hooks do, calls the
    synchronization hook once for each element of [mChildFunctors] and once
    for each element of [mVectorDrawables] (the calls are those, up to
    order), calls nothing else, and leaves the container as it was. *)
Theorem syncContents_hooks_exactly_once {W : Type} (h : handler W) (w : W)
    (self : SkiaDisplayList) :
  Permutation
    (calls (run h (syncContents self) w))
    (map Sync_vector (mVectorDrawables self) ++
     map Sync_functor (mChildFunctors self)) /\
  returned (run h (syncContents self) w) = self.
Proof.
  destruct (syncContents_run h w self) as [Hc Hr]. split.
  - rewrite Hc. apply Permutation_app_comm.
  - exact Hr.
Qed.


Lemma updateChildren_run {W : Type} (h : handler W) (w : W)
    (self : SkiaDisplayList) :
  calls (run h (updateChildren updateFn_call self) w) =
    map (fun child => Invoke_updateFn (getRenderNode child))
        (mChildNodes self) /\
  returned (run h (updateChildren updateFn_call self) w) = self.
Proof.
  unfold updateChildren. rewrite run_bind.
  pose proof (for_each_calls h
                (fun (child : RenderNodeDrawable) (_ : unit) =>
                   updateFn_call (getRenderNode child))
                (fun e => [e])
                (fun child : RenderNodeDrawable =>
                   [Invoke_updateFn (getRenderNode child)])) as H1.
  specialize (H1 (fun x s w0 => ltac:(one_call h))
                 (mChildNodes self) tt w).
  destruct (run h (for_each (mChildNodes self) _ tt) w) as [[u1 w1] l1].
  unfold calls, returned in *. simpl in *.
  rewrite flat_map_singleton, flat_map_map_singleton in H1.
  rewrite app_nil_r. split; [exact H1 | reflexivity].
Qed.


Lemma flat_map_nil {A B : Type} (l : list A) :
  flat_map (fun _ : A => @nil B) l = [].
Proof. induction l as [| x l IH]; simpl; congruence. Qed.

Section Prepare.
Context {W : Type} (h : handler W) (info : TreeInfo)
  (functorsNeedLayer : bool) (self : SkiaDisplayList).

Local Abbreviation child_loop :=
  (child_round childFn_call functorsNeedLayer).
Local Abbreviation image_pass :=
  (for_each (mMutableImages self) image_round (false, info)).
Local Abbreviation prepare_pass :=
  (prepareListAndChildren info functorsNeedLayer childFn_call self).

(** The run of a prepare pass, split into its two loops. *)
Lemma prepare_run (w : W) :
  run h prepare_pass w =
  let '(st1, w1, l1) :=
    run h image_pass w in
  let '(st2, w2, l2) :=
    run h (for_each (mChildNodes self) child_loop st1) w1 in
  (fst st2, snd st2, self, w2, l1 ++ l2).
Proof.
  unfold prepareListAndChildren. rewrite run_bind.
  destruct (run h image_pass w)
    as [[st1 w1] l1].
  rewrite run_bind.
  destruct (run h (for_each (mChildNodes self) child_loop st1) w1)
    as [[st2 w2] l2].
  simpl. rewrite app_nil_r. reflexivity.
Qed.

Lemma prepare_dirty (w : W) :
  fst (fst (returned (run h prepare_pass w))) =
  existsb signalled (interactions (run h prepare_pass w)).
Proof.
  rewrite prepare_run.
  pose proof (for_each_signals h image_round) as H1.
  pose proof (for_each_signals h child_loop) as H2.
  specialize (H1 (fun x s w0 => ltac:(unfold image_round; one_call h))
                 (mMutableImages self) (false, info) w).
  destruct (run h image_pass w)
    as [[st1 w1] l1].
  specialize (H2 (fun x s w0 => ltac:(unfold child_round; one_call h))
                 (mChildNodes self) st1 w1).
  destruct (run h (for_each (mChildNodes self) child_loop st1) w1)
    as [[st2 w2] l2].
  unfold returned, interactions in *. simpl in *.
  rewrite H2, H1, existsb_app. reflexivity.
Qed.

Lemma prepare_projection {Y : Type} (g : Ext -> list Y)
    (Pi : SkImage_ptr -> list Y) (Pc : RenderNodeDrawable -> list Y)
    (w : W) :
  (forall x s w0, flat_map g (calls (run h (image_round x s) w0)) = Pi x) ->
  (forall x s w0, flat_map g (calls (run h (child_loop x s) w0)) = Pc x) ->
  flat_map g (calls (run h prepare_pass w)) =
  flat_map Pi (mMutableImages self) ++ flat_map Pc (mChildNodes self).
Proof.
  intros Hi Hc. rewrite prepare_run.
  pose proof (for_each_calls h image_round g Pi Hi
                (mMutableImages self) (false, info) w) as H1.
  destruct (run h image_pass w)
    as [[st1 w1] l1].
  pose proof (for_each_calls h child_loop g Pc Hc (mChildNodes self) st1 w1)
    as H2.
  destruct (run h (for_each (mChildNodes self) child_loop st1) w1)
    as [[st2 w2] l2].
  unfold calls in *. simpl in *.
  rewrite map_app, flat_map_app, H1, H2. reflexivity.
Qed.

(** C2. In every run of a prepare pass, whatever the tree-info state, the
    flag and the behaviour of the callback and of the uploads, the
    references visited are the mutable images and then the child nodes of
    the container, and the pass returns [true] exactly when one of those
    visits signalled invalidation; with no mutable image and no child
    node it returns [false]. *)
Theorem prepareListAndChildren_true_iff_signalled (w : W) :
  (fst (fst (returned
     (run h (prepareListAndChildren info functorsNeedLayer childFn_call self)
          w))) = true <->
   exists i,
     In i (interactions
       (run h (prepareListAndChildren info functorsNeedLayer childFn_call
                 self) w)) /\
     visit_of (ev i) <> [] /\ signalled i = true) /\
  flat_map visit_of (calls
    (run h (prepareListAndChildren info functorsNeedLayer childFn_call self)
         w)) =
    map Visited_image (mMutableImages self) ++
    map (fun child => Visited_node (getRenderNode child))
        (mChildNodes self) /\
  (mMutableImages self = [] -> mChildNodes self = [] ->
   fst (fst (returned
     (run h (prepareListAndChildren info functorsNeedLayer childFn_call self)
          w))) = false).
Proof.
  split; [| split].
  - rewrite prepare_dirty, existsb_exists. split.
    + intros [i [Hin Hs]]. exists i. repeat split; try assumption.
      destruct i as [e a]. destruct e; simpl in *; congruence.
    + intros [i [Hin [_ Hs]]]. exists i. split; assumption.
  - rewrite (prepare_projection visit_of
               (fun img => [Visited_image img])
               (fun child => [Visited_node (getRenderNode child)])).
    + now rewrite !flat_map_map_singleton.
    + intros x s w0. unfold image_round. one_call h.
    + intros x s w0. unfold child_round. one_call h.
  - intros Hi Hc. rewrite prepare_run, Hi, Hc. reflexivity.
Qed.

(** C8. In every run of a prepare pass the child-prepare callback is
    called once for each element of [mChildNodes], in order, and every one
    of those calls receives the very [functorsNeedLayer] the pass was
    given; for any callback, the pass is the same program as the one whose
    callback is handed that value whatever the pass passes. *)
Theorem prepareListAndChildren_passes_functorsNeedLayer (w : W) :
  flat_map childFn_args (calls
    (run h (prepareListAndChildren info functorsNeedLayer childFn_call self)
         w)) =
    map (fun child => (getRenderNode child, functorsNeedLayer))
        (mChildNodes self) /\
  forall (childFn : RenderNode_ptr -> TreeInfo -> bool -> Prog TreeInfo)
         (b : bool),
    prepareListAndChildren info b
      (fun node i _ => childFn node i functorsNeedLayer) self =
    prepareListAndChildren info functorsNeedLayer childFn self.
Proof.
  split.
  - rewrite (prepare_projection childFn_args
               (fun _ => [])
               (fun child => [(getRenderNode child, functorsNeedLayer)])).
    + now rewrite flat_map_nil, flat_map_map_singleton.
    + intros x s w0. unfold image_round. one_call h.
    + intros x s w0. unfold child_round. one_call h.
  - intros childFn b. reflexivity.
Qed.

End Prepare.

(** ** The queries *)

(** C5. In every state, [hasFunctor] is true exactly when [mChildFunctors]
    is non-empty, and [hasVectorDrawables] exactly when [mVectorDrawables]
    is non-empty. *)
Theorem hasFunctor_hasVectorDrawables_nonempty (self : SkiaDisplayList) :
  (hasFunctor self = true <-> mChildFunctors self <> []) /\
  (hasVectorDrawables self = true <-> mVectorDrawables self <> []).
Proof.
  unfold hasFunctor, hasVectorDrawables. split.
  - destruct (mChildFunctors self); simpl; split; congruence.
  - destruct (mVectorDrawables self); simpl; split; congruence.
Qed.

(** C9. [isSkiaDL] answers [true] in every state, so whatever was recorded,
    however often the list was reset and with whatever bounds, and as a
    [const] member it hands the container back as it was. *)
Theorem isSkiaDL_always_true (self : SkiaDisplayList) :
  const_method isSkiaDL self = (true, self).
Proof. reflexivity. Qed.

(** ** Histories *)

Lemma mDrawable_mutate (m : Mutation) (self : SkiaDisplayList) :
  mDrawable (mutate m self) =
  match m with
  | Append_op op => option_map (SkLiteDL_append op) (mDrawable self)
  | Reset bounds => option_map (SkLiteDL_reset bounds) (mDrawable self)
  | _ => mDrawable self
  end.
Proof. destruct m; reflexivity. Qed.

(** The command buffer stays allocated through any history, and holds as
    many operations as were recorded since the last reset. *)
Lemma command_buffer_after (history : list Mutation) :
  forall (self : SkiaDisplayList) (dl : SkLiteDL),
    mDrawable self = Some dl ->
    exists dl',
      mDrawable (fold_left (fun s m => mutate m s) history self) = Some dl' /\
      length (fOps dl') = recorded_since_reset (length (fOps dl)) history.
Proof.
  induction history as [| m rest IH]; intros self dl Hdl; simpl.
  - exists dl. split; [assumption | reflexivity].
  - pose proof (mDrawable_mutate m self) as Hm. rewrite Hdl in Hm.
    destruct m; cbn [option_map] in Hm;
      destruct (IH _ _ Hm) as [dl' [H1 H2]]; exists dl';
      (split; [exact H1 |]); try exact H2.
    rewrite H2. simpl. rewrite length_app. simpl.
    now rewrite Nat.add_1_r.
Qed.

Lemma reset_of_allocated (bounds : SkRect) (self : SkiaDisplayList)
    (dl : SkLiteDL) :
  mDrawable self = Some dl -> reset bounds self = new_SkiaDisplayList bounds.
Proof.
  intros Hdl. unfold reset, teardown_run, new_SkiaDisplayList.
  cbv [reset_steps fold_left teardown_step mDrawable allocator mChildNodes
       mChildFunctors mMutableImages mVectorDrawables mIsProjectionReceiver].
  fold (mDrawable self). rewrite Hdl. reflexivity.
Qed.

(** C4. After construction and any history of recording and resets,
    [isEmpty] has a result, and it is [true] exactly when no operation has
    been recorded since construction or the last reset. *)
Theorem isEmpty_iff_nothing_recorded (bounds : SkRect)
    (history : list Mutation) :
  exists b,
    isEmpty (after bounds history) = Some b /\
    (b = true <-> recorded_since_reset 0 history = 0).
Proof.
  destruct (command_buffer_after history (new_SkiaDisplayList bounds)
              (SkLiteDL_New bounds) eq_refl) as [dl [Hdl Hlen]].
  simpl in Hlen. unfold after, isEmpty. rewrite Hdl.
  exists (SkLiteDL_empty dl). split; [reflexivity |].
  unfold SkLiteDL_empty. rewrite <- Hlen.
  destruct (fOps dl); simpl; split; congruence.
Qed.

(** C1. Whatever the container went through since it was constructed,
    [reset b2] leaves it equal to a newly constructed one with bounds [b2]:
    nothing recorded, the four collections empty, the bounds [b2], and
    [updateChildren] with nothing to call. *)
Theorem reset_as_newly_constructed (b1 b2 : SkRect)
    (history : list Mutation) :
  reset b2 (after b1 history) = new_SkiaDisplayList b2 /\
  isEmpty (reset b2 (after b1 history)) = Some true /\
  hasFunctor (reset b2 (after b1 history)) = false /\
  hasVectorDrawables (reset b2 (after b1 history)) = false /\
  getBounds (reset b2 (after b1 history)) = Some b2 /\
  mChildNodes (reset b2 (after b1 history)) = [] /\
  mChildFunctors (reset b2 (after b1 history)) = [] /\
  mMutableImages (reset b2 (after b1 history)) = [] /\
  mVectorDrawables (reset b2 (after b1 history)) = [] /\
  forall (W : Type) (h : handler W) (w : W),
    calls (run h (updateChildren updateFn_call (reset b2 (after b1 history)))
               w) = [].
Proof.
  destruct (command_buffer_after history (new_SkiaDisplayList b1)
              (SkLiteDL_New b1) eq_refl) as [dl [Hdl _]].
  fold (after b1 history) in Hdl.
  rewrite (reset_of_allocated b2 _ _ Hdl).
  repeat split; reflexivity.
Qed.

(** The flag is set only by an explicit assignment of [true]. *)
Lemma projection_receiver_set (history : list Mutation) :
  forall self : SkiaDisplayList,
    mIsProjectionReceiver
      (fold_left (fun s m => mutate m s) history self) = true ->
    mIsProjectionReceiver self = true \/
    In (Set_projection_receiver true) history.
Proof.
  induction history as [| m rest IH]; intros self H; simpl in *.
  - left. assumption.
  - destruct (IH _ H) as [Hm | Hin].
    + destruct m; simpl in Hm; try (left; assumption); try discriminate.
      right. left. now subst b.
    + right. right. assumption.
Qed.

(** C10. A newly constructed container is not a projection receiver, and
    after any history the flag is [true] only if the history holds an
    explicit assignment of [true] to it; the three traversals hand the
    container back with the flag they found. *)
Theorem projection_receiver_false_until_set (bounds : SkRect) :
  mIsProjectionReceiver (new_SkiaDisplayList bounds) = false /\
  (forall history : list Mutation,
     mIsProjectionReceiver (after bounds history) = true ->
     In (Set_projection_receiver true) history) /\
  (forall (W : Type) (h : handler W) (w : W) (self : SkiaDisplayList)
          (info : TreeInfo) (functorsNeedLayer : bool),
     mIsProjectionReceiver (returned (run h (syncContents self) w)) =
       mIsProjectionReceiver self /\
     mIsProjectionReceiver
       (returned (run h (updateChildren updateFn_call self) w)) =
       mIsProjectionReceiver self /\
     mIsProjectionReceiver
       (snd (returned
          (run h (prepareListAndChildren info functorsNeedLayer childFn_call
                    self) w))) =
       mIsProjectionReceiver self).
Proof.
  split; [reflexivity | split].
  - intros history H. destruct (projection_receiver_set history _ H) as [F | I].
    + discriminate F.
    + exact I.
  - intros W h w self info functorsNeedLayer. repeat split.
    + now rewrite (proj2 (syncContents_run h w self)).
    + now rewrite (proj2 (updateChildren_run h w self)).
    + rewrite prepare_run.
      destruct (run h (for_each (mMutableImages self) _ (false, info)) w)
        as [[st1 w1] l1].
      destruct (run h (for_each (mChildNodes self) _ st1) w1)
        as [[st2 w2] l2].
      reflexivity.
Qed.

(** ** Teardown order *)


(** C6. Cut the destructor, or [reset], at any point.  Up to there every
    store of wrappers (the two deques and the arena) is either untouched or
    given back whole, and the objects of the arena are all there until the
    arena itself has been given back; and if the next step gives such a
    store back, a step tearing down the command buffer has already run, the
    command buffer points at no wrapper any more, and nothing dangles after
    the step. *)
Theorem command_buffer_torn_down_before_reclaim (self : SkiaDisplayList)
    (steps pre post : list Teardown) :
  steps = dtor_SkiaDisplayList \/ (exists bounds, steps = reset_steps bounds) ->
  steps = pre ++ post ->
  wrappers_kept_or_gone self (teardown_run pre self) /\
  arenaObjects (allocator (teardown_run pre self)) =
    (if existsb reclaims_arena pre then []
     else arenaObjects (allocator self)) /\
  forall (t : Teardown) (post' : list Teardown),
    post = t :: post' ->
    reclaims t = true ->
    existsb tears_down_command_buffer pre = true /\
    command_buffer_refs (teardown_run pre self) = [] /\
    no_dangling (teardown_run (pre ++ [t]) self) = true.
Proof.
  intros [-> | [bounds ->]] Hcut;
    unfold dtor_SkiaDisplayList, dtor_body, dtor_members, dtor_base,
      reset_steps in Hcut; simpl in Hcut;
    split_prefix Hcut;
    (split; [| split];
     [ unfold wrappers_kept_or_gone, kept_or_gone; simpl; auto
     | reflexivity
     | intros t post' Heq Hr; inversion Heq; subst; simpl in Hr;
       try discriminate Hr;
       repeat split; try reflexivity; command_buffer_gone self ]).
Qed.

(** ** Allocation *)

Lemma continues_refl {A : Type} (l : list A) : continues l l.
Proof. exists []. now rewrite app_nil_r. Qed.

Lemma continues_nth_error {A : Type} (old new : list A) (i : nat) :
  continues old new -> i < length old -> nth_error new i = nth_error old i.
Proof. intros [more ->] Hi. now apply nth_error_app1. Qed.

Lemma stores_continue_deref (before now : SkiaDisplayList) (r : DrawableRef) :
  stores_continue before now ->
  live_ref before r = true ->
  deref now r = deref before r /\ live_ref now r = true.
Proof.
  intros [Hn [Hf Ha]] Hlive.
  destruct r as [i | i | i]; simpl in *; apply Nat.ltb_lt in Hlive.
  - rewrite (continues_nth_error _ _ i Hn Hlive). split; [reflexivity |].
    apply Nat.ltb_lt. destruct Hn as [more ->]. rewrite length_app. lia.
  - rewrite (continues_nth_error _ _ i Hf Hlive). split; [reflexivity |].
    apply Nat.ltb_lt. destruct Hf as [more ->]. rewrite length_app. lia.
  - rewrite (continues_nth_error _ _ i Ha Hlive). split; [reflexivity |].
    apply Nat.ltb_lt. destruct Ha as [more ->]. rewrite length_app. lia.
Qed.


Lemma forallb_live_continues (before now : SkiaDisplayList)
    (refs : list DrawableRef) :
  stores_continue before now ->
  forallb (live_ref before) refs = true ->
  forallb (live_ref now) refs = true.
Proof.
  intros Hc H. rewrite forallb_forall in *. intros r Hr.
  exact (proj2 (stores_continue_deref before now r Hc (H r Hr))).
Qed.


(** ** Recording and dangling references *)

Lemma mutate_continues (m : Mutation) (self : SkiaDisplayList) :
  is_reset m = false -> stores_continue self (mutate m self).
Proof.
  intros Hm.
  destruct m; try discriminate Hm; repeat split; simpl;
    try apply continues_refl; eexists; reflexivity.
Qed.

Lemma command_buffer_refs_mutate (m : Mutation) (self : SkiaDisplayList) :
  command_buffer_refs (mutate m self) =
  match m with
  | Reset _ => []
  | Append_op op =>
      match mDrawable self with
      | Some _ => command_buffer_refs self ++ op_refs op
      | None => []
      end
  | _ => command_buffer_refs self
  end.
Proof.
  unfold command_buffer_refs. rewrite mDrawable_mutate.
  destruct m; try reflexivity; destruct (mDrawable self) as [dl |];
    try reflexivity.
  cbn [option_map SkLiteDL_append fOps].
  rewrite flat_map_app. simpl. now rewrite app_nil_r.
Qed.

Lemma mutate_no_dangling (m : Mutation) (self : SkiaDisplayList) :
  no_dangling self = true ->
  admissible m self = true ->
  no_dangling (mutate m self) = true.
Proof.
  unfold no_dangling. intros Hs Hm.
  rewrite command_buffer_refs_mutate.
  destruct m; try reflexivity;
    try (apply (forallb_live_continues self); [| exact Hs];
         apply mutate_continues; reflexivity).
  destruct (mDrawable self); [| reflexivity].
  rewrite forallb_app. apply andb_true_iff. split.
  - apply (forallb_live_continues self); [| exact Hs].
    apply mutate_continues; reflexivity.
  - apply (forallb_live_continues self); [| exact Hm].
    apply mutate_continues; reflexivity.
Qed.

Lemma record_no_dangling (history : list Mutation) :
  forall self : SkiaDisplayList,
    no_dangling self = true ->
    disciplined history self = true ->
    no_dangling (record history self) = true.
Proof.
  induction history as [| m rest IH]; intros self Hs Hd; simpl in *.
  - exact Hs.
  - apply andb_true_iff in Hd. destruct Hd as [Hm Hrest].
    apply IH; [apply mutate_no_dangling; assumption | exact Hrest].
Qed.

(** X4. If every operation appended to the command buffer points only at
    drawables stored by then, then after any history of recording and
    resets since construction, the command buffer holds no dangling
    reference. *)
Theorem disciplined_recording_never_dangles (bounds : SkRect)
    (history : list Mutation) :
  disciplined history (new_SkiaDisplayList bounds) = true ->
  no_dangling (after bounds history) = true.
Proof.
  intros Hd. apply (record_no_dangling history); [reflexivity | exact Hd].
Qed.

(** ** The queries along a history *)

Lemma collections_mutate (m : Mutation) (self : SkiaDisplayList) :
  length (mChildFunctors (mutate m self)) =
    match m with
    | Reset _ => 0
    | Emplace_child_functor _ => S (length (mChildFunctors self))
    | _ => length (mChildFunctors self)
    end /\
  length (mVectorDrawables (mutate m self)) =
    match m with
    | Reset _ => 0
    | Push_vector_drawable _ => S (length (mVectorDrawables self))
    | _ => length (mVectorDrawables self)
    end.
Proof.
  destruct m; simpl; split; try reflexivity;
    rewrite length_app; simpl; apply Nat.add_1_r.
Qed.

Lemma collections_record (history : list Mutation) :
  forall self : SkiaDisplayList,
    length (mChildFunctors (record history self)) =
      functors_since_reset (length (mChildFunctors self)) history /\
    length (mVectorDrawables (record history self)) =
      vector_drawables_since_reset (length (mVectorDrawables self)) history.
Proof.
  induction history as [| m rest IH]; intros self.
  - split; reflexivity.
  - destruct (IH (mutate m self)) as [Hf Hv].
    destruct (collections_mutate m self) as [Mf Mv].
    change (record (m :: rest) self) with (record rest (mutate m self)).
    rewrite Hf, Hv, Mf, Mv. destruct m; split; reflexivity.
Qed.

(** X7. After construction and any history of recording and resets,
    [hasFunctor] is true exactly when a functor was put in since
    construction or the last reset, and [hasVectorDrawables] exactly when a
    vector drawable was; in particular both are false right after a
    reset. *)
Theorem hasFunctor_hasVectorDrawables_since_reset (bounds : SkRect)
    (history : list Mutation) :
  (hasFunctor (after bounds history) = true <->
   functors_since_reset 0 history <> 0) /\
  (hasVectorDrawables (after bounds history) = true <->
   vector_drawables_since_reset 0 history <> 0) /\
  hasFunctor (after bounds (history ++ [Reset bounds])) = false /\
  hasVectorDrawables (after bounds (history ++ [Reset bounds])) = false.
Proof.
  destruct (collections_record history (new_SkiaDisplayList bounds))
    as [Hf Hv].
  change (record history (new_SkiaDisplayList bounds))
    with (after bounds history) in Hf, Hv.
  simpl in Hf, Hv. unfold hasFunctor, hasVectorDrawables.
  repeat split.
  - intros H E. rewrite <- Hf in E.
    destruct (mChildFunctors (after bounds history)); discriminate.
  - intros H. rewrite <- Hf in H.
    destruct (mChildFunctors (after bounds history)); [now elim H | reflexivity].
  - intros H E. rewrite <- Hv in E.
    destruct (mVectorDrawables (after bounds history)); discriminate.
  - intros H. rewrite <- Hv in H.
    destruct (mVectorDrawables (after bounds history));
      [now elim H | reflexivity].
  - unfold after. now rewrite fold_left_app.
  - unfold after. now rewrite fold_left_app.
Qed.

End Properties.

(** * The scenario, checked *)

Example scenario_recorded :
  isEmpty recorded = Some false /\
  hasFunctor recorded = true /\
  hasVectorDrawables recorded = false /\
  no_dangling recorded = true.
Proof. repeat split; reflexivity. Qed.

Example scenario_reset :
  isEmpty (reset bounds50 recorded) = Some true /\
  hasFunctor (reset bounds50 recorded) = false /\
  getBounds (reset bounds50 recorded) = Some bounds50.
Proof. repeat split; reflexivity. Qed.

Example scenario_updateChildren :
  calls (run counting (updateChildren updateFn_call recorded_twice) 0%nat) =
  [Invoke_updateFn 7%N; Invoke_updateFn 9%N; Invoke_updateFn 7%N].
Proof. reflexivity. Qed.

Example scenario_syncContents :
  calls (run counting (syncContents recorded_twice) 0%nat) =
  [Sync_vector 5%N] /\
  calls (run counting (syncContents recorded) 0%nat) =
  [Sync_functor functor3].
Proof. split; reflexivity. Qed.

Example scenario_prepare :
  run counting
    (prepareListAndChildren 0%nat true childFn_call recorded_twice) 0%nat =
  (true, 31%nat, recorded_twice, 7%nat,
   [ {| ev := Upload_image 4%N 0%nat; answer := (false, 1%nat) |};
     {| ev := Invoke_childFn 7%N 1%nat true; answer := 11%nat |};
     {| ev := Node_signal 7%N 11%nat; answer := true |};
     {| ev := Invoke_childFn 9%N 11%nat true; answer := 21%nat |};
     {| ev := Node_signal 9%N 21%nat; answer := false |};
     {| ev := Invoke_childFn 7%N 21%nat true; answer := 31%nat |};
     {| ev := Node_signal 7%N 31%nat; answer := true |} ]).
Proof. reflexivity. Qed.

(** Tearing the arena down first would leave the command buffer pointing
    at wrappers that are gone: the order of the steps matters. *)
Example arena_first_dangles :
  no_dangling (teardown_run [Reclaim_arena] recorded_twice) = false /\
  no_dangling (teardown_run [Clear_child_nodes] recorded) = false.
Proof. split; reflexivity. Qed.

(** ** Instances of the conditional statements *)

Lemma prepare_of_empty_list_witness :
  mMutableImages (reset bounds50 recorded) = [] /\
  mChildNodes (reset bounds50 recorded) = [] /\
  fst (fst (returned
    (run counting
       (prepareListAndChildren 0%nat true childFn_call
          (reset bounds50 recorded)) 0%nat))) = false.
Proof.
  split; [reflexivity | split; [reflexivity |]].
  apply (proj2 (proj2 (prepareListAndChildren_true_iff_signalled
                         counting 0%nat true (reset bounds50 recorded)
                         0%nat))); reflexivity.
Defined.

Lemma projection_receiver_witness :
  mIsProjectionReceiver recorded_twice = true /\
  In (Set_projection_receiver true) (recording ++ second_pass).
Proof.
  split; [reflexivity |].
  apply (proj1 (proj2 (@projection_receiver_false_until_set Z N N nat
                         bounds100)) (recording ++ second_pass)).
  reflexivity.
Defined.

Lemma dtor_cut_before_deques_witness :
  dtor_SkiaDisplayList = dtor_before_deques ++ dtor_from_deques /\
  reclaims (@Clear_child_functors Z) = true /\
  existsb tears_down_command_buffer dtor_before_deques = true /\
  command_buffer_refs (teardown_run dtor_before_deques recorded_twice) = [] /\
  no_dangling
    (teardown_run (dtor_before_deques ++ [Clear_child_functors])
       recorded_twice) = true.
Proof.
  split; [reflexivity | split; [reflexivity |]].
  apply (proj2 (proj2 (command_buffer_torn_down_before_reclaim
                  recorded_twice dtor_SkiaDisplayList
                  dtor_before_deques dtor_from_deques
                  (or_introl eq_refl) eq_refl))
           Clear_child_functors [Clear_child_nodes; Reclaim_arena]
           eq_refl eq_refl).
Defined.


Lemma disciplined_recording_witness :
  disciplined (recording ++ second_pass ++ more_recording)
    (new_SkiaDisplayList bounds100) = true /\
  no_dangling (after bounds100 (recording ++ second_pass ++ more_recording))
    = true.
Proof.
  split; [reflexivity |].
  apply (disciplined_recording_never_dangles bounds100
           (recording ++ second_pass ++ more_recording)).
  reflexivity.
Defined.

(** An operation recorded on a drawable that is not stored yet breaks the
    discipline, and the command buffer dangles. *)
Example undisciplined_recording_dangles :
  disciplined [Append_op (drawDrawable (InChildNodes 3))] recorded_twice
    = false /\
  no_dangling
    (record [Append_op (drawDrawable (InChildNodes 3))] recorded_twice)
    = false.
Proof. split; reflexivity. Qed.

(** ** A node recorded more than once *)

